(** * Convolutional seismic modelling

    A shallow embedding of [fatiando/seismic/conv.py]
    ([seismic_convolutional_model] and [rickerwave]) and the properties of
    the depth-to-time conversion, the resampling, the reflectivity series,
    the Ricker wavelet and the convolution.

    Conventions of the embedding.
    - Python and numpy floats are idealised as exact rationals ([Q]);
      rounding is not modelled.  A division whose divisor is zero makes
      numpy produce [inf] or [nan], which no rational represents: the
      embedding stops there with [Raise NonFinite].
    - A 2-D array [a] of shape (rows, columns) is the list of its columns:
      [a[i, j]] is [get2 a i j].  The code's row-wise vectorised statements
      act on every column independently, so they are written per column.
    - Python exceptions are the [Raise] results of the [result] monad.
    - Array sizes and indices produced by [np.ceil]/[np.floor] are floats
      holding integers; they are integers ([Z]) here. *)

From Stdlib Require Import List ZArith QArith Qround Lia Lqa Bool Morphisms.
Import ListNotations.

(** ** Exceptions *)

Inductive exn : Type :=
| IndexError
| ValueError
| NameError
| ZeroDivisionError
| NonFinite.

Inductive result (A : Type) : Type :=
| Ok (a : A)
| Raise (e : exn).

Arguments Ok {A} a.
Arguments Raise {A} e.

Definition bind {A B : Type} (m : result A) (k : A -> result B) : result B :=
  match m with
  | Ok a => k a
  | Raise e => Raise e
  end.

Notation "x <- m ;; k" := (bind m (fun x => k))
  (at level 61, m at next level, right associativity).

Fixpoint mapM {A B : Type} (f : A -> result B) (l : list A) : result (list B) :=
  match l with
  | [] => Ok []
  | a :: l' => b <- f a ;; bs <- mapM f l' ;; Ok (b :: bs)
  end.

(** ** Arrays *)

Definition array1 := list Q.
Definition array2 := list (list Q).

(** [a[i, j]] of a 2-D array held as its list of columns. *)
Definition get2 (a : array2) (i j : nat) : Q := nth i (nth j a []) 0%Q.

(** [shape_ok n m a]: [a] has [n] rows and [m] columns. *)
Definition shape_ok (n m : nat) (a : array2) : bool :=
  (length a =? m)%nat && forallb (fun c => (length c =? n)%nat) a.

Definition Qlt_bool (a b : Q) : bool := negb (Qle_bool b a).

(** numpy's elementwise division of floats. *)
Definition np_div (a b : Q) : result Q :=
  if Qeq_bool b 0 then Raise NonFinite else Ok (a / b)%Q.

(** Division of two Python floats. *)
Definition py_div (a b : Q) : result Q :=
  if Qeq_bool b 0 then Raise ZeroDivisionError else Ok (a / b)%Q.

(** Python's [a[i]] on a sequence of length [n]: negative indices count from
    the end, anything outside [-n, n) raises. *)
Definition getitem (a : array1) (i : Z) : result Q :=
  let n := Z.of_nat (length a) in
  if ((0 <=? i) && (i <? n))%Z then Ok (nth (Z.to_nat i) a 0%Q)
  else if ((- n <=? i) && (i <? 0))%Z then Ok (nth (Z.to_nat (i + n)) a 0%Q)
  else Raise IndexError.

(** A slice bound of Python on a sequence of length [n]: negative bounds
    count from the end, then the bound is clipped to [0, n]. *)
Definition slice_bound (n : nat) (i : Z) : nat :=
  let i' := if (i <? 0)%Z then (i + Z.of_nat n)%Z else i in
  Z.to_nat (Z.max 0 (Z.min i' (Z.of_nat n))).

Definition slice_stop (n : nat) (stop : option Z) : nat :=
  match stop with
  | Some s => slice_bound n s
  | None => n
  end.

(** [a[start:stop]]. *)
Definition getslice (a : array1) (start : Z) (stop : option Z) : array1 :=
  let n := length a in
  let lo := slice_bound n start in
  let hi := slice_stop n stop in
  firstn (hi - lo) (skipn lo a).

(** [a[start:stop] = v] for a scalar [v]. *)
Definition setslice_scalar (a : array1) (start : Z) (stop : option Z) (v : Q)
  : array1 :=
  let n := length a in
  let lo := slice_bound n start in
  let hi := slice_stop n stop in
  firstn lo a ++ repeat v (hi - lo) ++ skipn (lo + (hi - lo)) a.

(** [a[start:stop] = vs] for an array [vs]: the lengths must agree, except
    that a one-element [vs] is broadcast. *)
Definition setslice (a : array1) (start : Z) (stop : option Z) (vs : array1)
  : result array1 :=
  let n := length a in
  let lo := slice_bound n start in
  let hi := slice_stop n stop in
  if (length vs =? hi - lo)%nat then
    Ok (firstn lo a ++ vs ++ skipn (lo + (hi - lo)) a)
  else
    match vs with
    | [v] => Ok (setslice_scalar a start stop v)
    | _ => Raise ValueError
    end.

(** [np.zeros(n)] and [np.ones(n)]: a negative size is refused. *)
Definition np_zeros (n : Z) : result array1 :=
  if (n <? 0)%Z then Raise ValueError else Ok (repeat 0%Q (Z.to_nat n)).

Definition np_ones (n : Z) : result array1 :=
  if (n <? 0)%Z then Raise ValueError else Ok (repeat 1%Q (Z.to_nat n)).

(** Python's builtin [max] and [min] over a sequence: the first extreme
    element is kept; an empty sequence raises. *)
Definition py_max (l : list Q) : result Q :=
  match l with
  | [] => Raise ValueError
  | x :: l' => Ok (fold_left (fun cur y => if Qlt_bool cur y then y else cur) l' x)
  end.

Definition py_min (l : list Q) : result Q :=
  match l with
  | [] => Raise ValueError
  | x :: l' => Ok (fold_left (fun cur y => if Qlt_bool y cur then y else cur) l' x)
  end.

(** Python's [int(x)] on a float: truncation towards zero. *)
Definition py_int (x : Q) : Z := Z.quot (Qnum x) (Zpos (Qden x)).

(** ** Travel times (conv.py, lines 42-45) *)

(** [for j in range(1, n_samples): TWT[j, :] = TWT[j-1] + 2*dz/model[j, :]],
    along one column; [prev] is [TWT[j-1]]. *)
Fixpoint TWT_loop (dz prev : Q) (vs : list Q) : result (list Q) :=
  match vs with
  | [] => Ok []
  | v :: vs' =>
      d <- np_div (2 * dz) v ;;
      let t := (prev + d)%Q in
      rest <- TWT_loop dz t vs' ;;
      Ok (t :: rest)
  end.

(** One column of [TWT]: [TWT[0, :] = 2*dz/model[0, :]], then the loop. *)
Definition TWT_trace (dz : Q) (col : list Q) : result (list Q) :=
  match col with
  | [] => Raise IndexError
  | v0 :: rest =>
      t0 <- np_div (2 * dz) v0 ;;
      r <- TWT_loop dz t0 rest ;;
      Ok (t0 :: r)
  end.

(** The travel-time map.  numpy raises [IndexError] or [ValueError] when the
    model does not have [n_samples] rows and [n_traces] columns. *)
Definition travel_times (n_samples n_traces : nat) (model : array2) (dz : Q)
  : result array2 :=
  if negb (shape_ok n_samples n_traces model) then Raise IndexError
  else mapM (TWT_trace dz) model.

(** [a[:, j]]. *)
Definition column (a : array2) (j : nat) : result array1 :=
  match nth_error a j with
  | Some c => Ok c
  | None => Raise IndexError
  end.

(** ** Fine time grid (conv.py, lines 50-52) *)

(** [for j in range(1, len(TWT_rs)): TWT_rs[j] = TWT_rs[j-1] + dt_dwn]. *)
Fixpoint TWT_rs_loop (dt_dwn prev : Q) (n : nat) : list Q :=
  match n with
  | O => []
  | S n' => let t := (prev + dt_dwn)%Q in t :: TWT_rs_loop dt_dwn t n'
  end.

Definition fine_grid (dt_dwn : Q) (N : Z) : result array1 :=
  z <- np_zeros N ;;
  match z with
  | [] => Ok []
  | z0 :: rest => Ok (z0 :: TWT_rs_loop dt_dwn z0 (length rest))
  end.

(** ** [scipy.interpolate.interp1d], linear, with its default arguments

    The constructor sorts the sample points by abscissa; a call refuses any
    abscissa outside the sampled range ([bounds_error=True]) and otherwise
    interpolates between the two neighbouring samples. *)

Record interp : Type := { ix : list Q; iy : list Q }.

Fixpoint insert_by_x (p : Q * Q) (l : list (Q * Q)) : list (Q * Q) :=
  match l with
  | [] => [p]
  | q :: l' =>
      if Qlt_bool (fst q) (fst p) then q :: insert_by_x p l' else p :: l
  end.

Definition sort_by_x (l : list (Q * Q)) : list (Q * Q) :=
  fold_right insert_by_x [] l.

Definition interp1d (x y : list Q) : result interp :=
  if negb (length x =? length y)%nat then Raise ValueError
  else if (length x <? 1)%nat then Raise ValueError
  else
    let s := sort_by_x (combine x y) in
    Ok {| ix := map fst s; iy := map snd s |}.

(** [np.searchsorted(x, v)]: the first index whose element is not below [v]. *)
Fixpoint searchsorted (x : list Q) (v : Q) : nat :=
  match x with
  | [] => O
  | a :: x' => if Qlt_bool a v then S (searchsorted x' v) else O
  end.

Definition np_clip (i lo hi : Z) : Z := Z.min (Z.max i lo) hi.

Definition interp_point (tck : interp) (x_new : Q) : result Q :=
  let n := Z.of_nat (length (ix tck)) in
  let idx := np_clip (Z.of_nat (searchsorted (ix tck) x_new)) 1 (n - 1) in
  let lo := (idx - 1)%Z in
  let hi := idx in
  x_lo <- getitem (ix tck) lo ;;
  x_hi <- getitem (ix tck) hi ;;
  y_lo <- getitem (iy tck) lo ;;
  y_hi <- getitem (iy tck) hi ;;
  slope <- np_div (y_hi - y_lo) (x_hi - x_lo) ;;
  Ok (slope * (x_new - x_lo) + y_lo)%Q.

Definition interp_call (tck : interp) (x_new : list Q) : result (list Q) :=
  x_first <- getitem (ix tck) 0 ;;
  x_last <- getitem (ix tck) (-1) ;;
  if existsb (fun x => Qlt_bool x x_first) x_new
     || existsb (fun x => Qlt_bool x_last x) x_new
  then Raise ValueError
  else mapM (interp_point tck) x_new.

(** ** Resampling onto the fine grid (conv.py, lines 53-63 and 76-86) *)

(** The body of the loop over traces, on column [j]: [init] is column [j] of
    [np.ones((N, n_traces))], [twt] is [TWT[:, j]] and [prop] is
    [model[:, j]] (or [rho[:, j]]). *)
Definition resample_trace (dt_dwn : Q) (TWT_rs init twt prop : array1)
  : result array1 :=
  t_first <- getitem twt 0 ;;
  q_first <- np_div t_first dt_dwn ;;
  let kk := Qceiling q_first in
  t_last <- getitem twt (-1) ;;
  q_last <- np_div t_last dt_dwn ;;
  let lim := (Qceiling q_last - 1)%Z in
  tck <- interp1d twt prop ;;
  ys <- interp_call tck (getslice TWT_rs kk (Some lim)) ;;
  c1 <- setslice init kk (Some lim) ys ;;
  x <- getitem c1 (lim - 1) ;;
  let c2 := setslice_scalar c1 lim None x in
  p0 <- getitem prop 0 ;;
  Ok (setslice_scalar c2 0 (Some kk) p0).

Definition resample (dt_dwn : Q) (N : Z) (TWT_rs : array1) (n_traces : nat)
    (TWT prop : array2) : result array2 :=
  init <- np_ones N ;;
  mapM (fun j =>
          twt <- column TWT j ;;
          p <- column prop j ;;
          resample_trace dt_dwn TWT_rs init twt p)
       (seq 0 n_traces).

(** ** Decimation to the output rate (conv.py, lines 65-73 and 88-93) *)

(** One column of the decimated array: [out[0] = first[0]] and
    [out[jj] = rest[resmpl*jj]] for [jj] in [range(1, M)]. *)
Definition decimate_from (M resmpl : Z) (first rest : array1) : result array1 :=
  out <- np_zeros M ;;
  x0 <- getitem first 0 ;;
  match out with
  | [] => Raise IndexError
  | _ :: out' =>
      xs <- mapM (fun jj => getitem rest (resmpl * Z.of_nat jj)%Z)
                 (seq 1 (length out')) ;;
      Ok (x0 :: xs)
  end.

(** Velocity: lines 68-71 read the fine-grid array [vel] in both places. *)
Definition decimate (M resmpl : Z) (n_traces : nat) (vel : array2)
  : result array2 :=
  mapM (fun j => c <- column vel j ;; decimate_from M resmpl c c)
       (seq 0 n_traces).

(** Density: line 90 reads [rho2], line 93 reads [rho]. *)
Definition decimate_density (M resmpl : Z) (n_traces : nat) (rho2 rho : array2)
  : result array2 :=
  mapM (fun j =>
          c2 <- column rho2 j ;;
          c <- column rho j ;;
          decimate_from M resmpl c2 c)
       (seq 0 n_traces).

(** The time axis: [TWT_ts[0, :]] keeps the zero of [np.zeros] and
    [TWT_ts[j, :] = TWT_rs[resmpl*j]] for [j] in [range(1, len(TWT_ts))]. *)
Definition time_axis_trace (M resmpl : Z) (TWT_rs : array1) : result array1 :=
  out <- np_zeros M ;;
  match out with
  | [] => Ok []
  | z0 :: out' =>
      xs <- mapM (fun j => getitem TWT_rs (resmpl * Z.of_nat j)%Z)
                 (seq 1 (length out')) ;;
      Ok (z0 :: xs)
  end.

Definition time_axis (M resmpl : Z) (n_traces : nat) (TWT_rs : array1)
  : result array2 :=
  col <- time_axis_trace M resmpl TWT_rs ;;
  Ok (repeat col n_traces).

(** ** Reflectivity (conv.py, lines 95-100) *)

Inductive density : Type :=
| RhoScalar (r : Q)
| RhoArray (a : array2).

Definition isinstance_ndarray (rho : density) : bool :=
  match rho with
  | RhoArray _ => true
  | RhoScalar _ => false
  end.

(** Python's [~] on a bool is the bitwise complement of the integer:
    [~True = -2] and [~False = -1]. *)
Definition py_invert (b : bool) : Z := if b then (-2)%Z else (-1)%Z.

(** Truth value of an integer in an [if]. *)
Definition truthy (z : Z) : bool := negb (z =? 0)%Z.

(** [(z[1:] - z[:-1]) / (z[1:] + z[:-1])] along one column; [prev] is the
    sample before the first of [rest]. *)
Fixpoint rc_loop (prev : Q) (rest : list Q) : result (list Q) :=
  match rest with
  | [] => Ok []
  | cur :: rest' =>
      r <- np_div (cur - prev) (cur + prev) ;;
      rs <- rc_loop cur rest' ;;
      Ok (r :: rs)
  end.

(** [rc = np.zeros(shape); rc[1:] = ...] along one column of [z]. *)
Definition rc_trace (z : array1) : result array1 :=
  match z with
  | [] => Ok []
  | z0 :: rest => rs <- rc_loop z0 rest ;; Ok (0%Q :: rs)
  end.

(** [vel_l * rho_l], elementwise. *)
Fixpoint mul_cols (a b : array1) : result array1 :=
  match a, b with
  | [], [] => Ok []
  | x :: a', y :: b' => r <- mul_cols a' b' ;; Ok ((x * y)%Q :: r)
  | _, _ => Raise ValueError
  end.

Fixpoint impedance (vel_l rho_l : array2) : result array2 :=
  match vel_l, rho_l with
  | [], [] => Ok []
  | v :: vs, r :: rs => z <- mul_cols v r ;; zs <- impedance vs rs ;; Ok (z :: zs)
  | _, _ => Raise ValueError
  end.

(** The branch on [~isinstance(rho, np.ndarray)].  The first branch creates
    [rc] and fills it from the decimated velocity.  The second branch
    (lines 99-100, the quotient broken over two lines without a continuation
    mark, read here as the one expression it spells) evaluates the impedance
    contrast and assigns it into [rc], a name that only the first branch
    binds. *)
Definition reflectivity (rho : density) (vel_l : array2) (rho_l : option array2)
  : result array2 :=
  if truthy (py_invert (isinstance_ndarray rho)) then
    mapM rc_trace vel_l
  else
    match rho_l with
    | Some r => z <- impedance vel_l r ;; _ <- mapM rc_trace z ;; Raise NameError
    | None => Raise NameError
    end.

(** ** [np.convolve] *)

Inductive conv_mode : Type := Full | Same.

Definition Qsum (l : list Q) : Q := fold_left Qplus l 0%Q.

(** Sample [n] of the discrete linear convolution, [sum_m a[m] * v[n-m]]. *)
Definition conv_at (a v : array1) (n : nat) : Q :=
  Qsum (map (fun m => (nth m a 0 * nth (n - m) v 0)%Q) (seq 0 (S n))).

(** [np.convolve(a, v, mode)]: empty arguments are refused, the longer
    argument comes first, ['full'] has [len a + len v - 1] samples and
    ['same'] keeps the [max (len a) (len v)] central ones. *)
Definition np_convolve (mode : conv_mode) (a v : array1) : result array1 :=
  match a, v with
  | [], _ => Raise ValueError
  | _, [] => Raise ValueError
  | _, _ =>
      let '(a, v) := if (length a <? length v)%nat then (v, a) else (a, v) in
      let full := map (conv_at a v) (seq 0 (length a + length v - 1)) in
      match mode with
      | Full => Ok full
      | Same => Ok (firstn (length a) (skipn ((length v - 1) / 2) full))
      end
  end.

(** Number of rows of a 2-D array, [np.shape(a)[0]]. *)
Definition n_rows (a : array2) : nat :=
  match a with
  | [] => O
  | c :: _ => length c
  end.

(** The branch inside the convolution loop (conv.py, lines 108-112). *)
Definition convolve_trace (rows : nat) (w rc_col : array1) : result array1 :=
  if (length w <=? rows)%nat then
    np_convolve Same rc_col w
  else
    let aux := Qfloor (inject_Z (Z.of_nat (length w)) / 2) in
    full <- np_convolve Full rc_col w ;;
    Ok (getslice full aux (Some (- aux)%Z)).

(** [np.arange(start, stop)] on integral floats. *)
Definition np_arange (start stop : Z) : list Q :=
  map (fun i => inject_Z (start + Z.of_nat i)) (seq 0 (Z.to_nat (stop - start))).

(** Everything the function computes before the wavelet is needed. *)
Record internals : Type := {
  i_TWT : array2;
  i_TMAX : Q;
  i_TWT_rs : array1;
  i_vel : array2;
  i_vel_l : array2;
  i_TWT_ts : array2;
  i_rho2 : option array2;
  i_rho_l : option array2;
  i_rc : array2
}.

(** The density block (conv.py, lines 75-93); [None] when [rho] is not an
    array, where [rho2] and [rho_l] stay unbound. *)
Definition density_block (dt_dwn : Q) (N M resmpl : Z) (TWT_rs : array1)
    (n_traces : nat) (TWT : array2) (rho : density)
  : result (option (array2 * array2)) :=
  match rho with
  | RhoScalar _ => Ok None
  | RhoArray a =>
      rho2 <- resample dt_dwn N TWT_rs n_traces TWT a ;;
      rho_l <- decimate_density M resmpl n_traces rho2 a ;;
      Ok (Some (rho2, rho_l))
  end.

(** Lines 41-63 of [seismic_convolutional_model]: the travel times, the
    fine grid and the velocity resampled onto it. *)
Record fine_stage : Type := {
  f_TWT : array2;
  f_TMAX : Q;
  f_N : Z;
  f_TWT_rs : array1;
  f_vel : array2
}.

Definition fine_resampling (n_samples n_traces : nat) (model : array2)
    (dz dt : Q) : result fine_stage :=
  let dt_dwn := (dt / 10)%Q in
  TWT <- travel_times n_samples n_traces model dz ;;
  TMAX <- py_max (map (fun c => last c 0%Q) TWT) ;;
  TMIN <- py_min (map (fun c => hd 0%Q c) TWT) ;;
  q_fine <- np_div TMAX dt_dwn ;;
  let N := Qceiling q_fine in
  TWT_rs <- fine_grid dt_dwn N ;;
  vel <- resample dt_dwn N TWT_rs n_traces TWT model ;;
  Ok {| f_TWT := TWT; f_TMAX := TMAX; f_N := N; f_TWT_rs := TWT_rs;
        f_vel := vel |}.

(** Lines 41-100 of [seismic_convolutional_model]. *)
Definition run_internals (n_samples n_traces : nat) (model : array2)
    (dz dt : Q) (rho : density) : result internals :=
  let dt_dwn := (dt / 10)%Q in
  fs <- fine_resampling n_samples n_traces model dz dt ;;
  q_out <- np_div (f_TMAX fs) dt ;;
  let M := Qceiling q_out in
  r <- py_div dt dt_dwn ;;
  let resmpl := py_int r in
  vel_l <- decimate M resmpl n_traces (f_vel fs) ;;
  TWT_ts <- time_axis M resmpl n_traces (f_TWT_rs fs) ;;
  d <- density_block dt_dwn (f_N fs) M resmpl (f_TWT_rs fs) n_traces
         (f_TWT fs) rho ;;
  rc <- reflectivity rho vel_l (option_map snd d) ;;
  Ok {| i_TWT := f_TWT fs; i_TMAX := f_TMAX fs; i_TWT_rs := f_TWT_rs fs;
        i_vel := f_vel fs; i_vel_l := vel_l; i_TWT_ts := TWT_ts;
        i_rho2 := option_map fst d; i_rho_l := option_map snd d; i_rc := rc |}.

Section Wavelet.

(** [np.exp] and [np.pi] are taken from the mathematics library. *)
Variable Qexp : Q -> Q.
Variable Qpi : Q.

(** [rickerwave(f, dt)] (conv.py, lines 116-125). *)
Definition rickerwave (f dt : Q) : result array1 :=
  q <- py_div (22 # 10) f ;;
  nw_raw <- py_div q dt ;;
  let nw := (2 * Qfloor (nw_raw / 2) + 1)%Z in
  let nc := Qfloor (inject_Z nw / 2) in
  _ <- np_zeros nw ;;
  let k := np_arange 1 (nw + 1) in
  Ok (map (fun k =>
             let alpha := ((inject_Z nc - k + 1) * f * dt * Qpi)%Q in
             let beta := (alpha ^ 2)%Q in
             ((1 - beta * 2) * Qexp (- beta))%Q) k).

(** The convolution loop (conv.py, lines 106-112): column [j] of
    [synth_l = np.zeros(np.shape(rc))] receives the convolved trace. *)
Definition convolve_all (rc : array2) (w : array1) : result array2 :=
  mapM (fun col =>
          s <- convolve_trace (n_rows rc) w col ;;
          setslice (repeat 0%Q (n_rows rc)) 0 None s)
       rc.

Definition seismic_convolutional_model (n_samples n_traces : nat)
    (model : array2) (f dz dt : Q) (rho : density)
  : result (array2 * array2) :=
  s <- run_internals n_samples n_traces model dz dt rho ;;
  w <- rickerwave f dt ;;
  synth_l <- convolve_all (i_rc s) w ;;
  Ok (synth_l, i_TWT_ts s).

End Wavelet.

(** ** Vocabulary of the statements *)



(** ** Example inputs

    All the numbers below, and every intermediate value the code computes
    from them, are dyadic: the floating-point run is exact on them. *)

(** One trace, eleven depth samples, velocity 4 everywhere. *)
Definition ex_velocity : array2 := [repeat 4%Q 11].

(** Density 1 at the first depth sample and 3 below. *)
Definition ex_density_step : array2 := [1%Q :: repeat 3%Q 10].

(** Density 1, 2, ..., 11 along depth. *)
Definition ex_density_ramp : array2 :=
  [map (fun i => inject_Z (Z.of_nat i)) (seq 1 11)].



(** One trace, two depth samples, velocities 2 and 4. *)
Definition ex_two_layers : array2 := [[2%Q; 4%Q]].

(** Rational stand-ins for [np.exp] and [np.pi], for closed examples: the
    Taylor polynomial of the exponential at 0, of degree 2, and 355/113. *)
Definition exp_taylor2 (x : Q) : Q := (1 + x + x * x / 2)%Q.
Definition pi_approx : Q := (355 # 113)%Q.

(** * Properties *)

(** ** The error monad *)

Lemma bind_ok {A B : Type} (m : result A) (k : A -> result B) (b : B) :
  bind m k = Ok b -> exists a, m = Ok a /\ k a = Ok b.
Proof.
  destruct m as [a|e]; simpl; intros H; [eauto | discriminate].
Qed.

Ltac inv_bind H :=
  let a := fresh "r" in
  let Ha := fresh "E" in
  apply bind_ok in H; destruct H as (a & Ha & H).

Lemma mapM_Forall2 {A B : Type} (f : A -> result B) (l : list A) (l' : list B) :
  mapM f l = Ok l' <-> Forall2 (fun a b => f a = Ok b) l l'.
Proof.
  revert l'; induction l as [|a l IH]; intros l'; simpl.
  - split; intros H.
    + injection H as <-. constructor.
    + inversion H. reflexivity.
  - split; intros H.
    + inv_bind H. inv_bind H. injection H as <-.
      constructor; [assumption | now apply IH].
    + inversion H as [|? b ? bs Hb Hbs]; subst.
      rewrite Hb; simpl. apply IH in Hbs. rewrite Hbs. reflexivity.
Qed.

Lemma mapM_length {A B : Type} (f : A -> result B) l l' :
  mapM f l = Ok l' -> length l' = length l.
Proof.
  intros H. apply mapM_Forall2 in H. symmetry. eapply Forall2_length; eauto.
Qed.


Lemma mapM_nth {A B : Type} (f : A -> result B) l l' (da : A) (db : B) j :
  mapM f l = Ok l' -> (j < length l)%nat -> f (nth j l da) = Ok (nth j l' db).
Proof.
  intros H. apply mapM_Forall2 in H. revert j.
  induction H as [|a b l l' Hab _ IH]; intros j Hj; simpl in *.
  - lia.
  - destruct j; [assumption | apply IH; lia].
Qed.

(** ** Checked division *)


Lemma np_div_inv a b q : np_div a b = Ok q -> ~ b == 0 /\ q = a / b.
Proof.
  unfold np_div. destruct (Qeq_bool b 0) eqn:E; [discriminate|].
  intros H; injection H as <-. split; [|reflexivity].
  intros Hb. apply Qeq_eq_bool in Hb. congruence.
Qed.

Lemma py_div_ok a b : ~ b == 0 -> py_div a b = Ok (a / b).
Proof.
  intros H. unfold py_div. destruct (Qeq_bool b 0) eqn:E; [|reflexivity].
  apply Qeq_bool_eq in E. contradiction.
Qed.

Lemma py_div_inv a b q : py_div a b = Ok q -> ~ b == 0 /\ q = a / b.
Proof.
  unfold py_div. destruct (Qeq_bool b 0) eqn:E; [discriminate|].
  intros H; injection H as <-. split; [|reflexivity].
  intros Hb. apply Qeq_eq_bool in Hb. congruence.
Qed.

Lemma Qpos_neq0 a : 0 < a -> ~ a == 0.
Proof.
  intros H E. rewrite E in H. now apply Qlt_irrefl in H.
Qed.

Lemma Qdiv_pos a b : 0 < a -> 0 < b -> 0 < a / b.
Proof.
  intros Ha Hb. unfold Qdiv. apply Qmult_lt_0_compat; [assumption|].
  now apply Qinv_lt_0_compat.
Qed.

(** ** Travel times *)



Lemma shape_ok_spec n m (a : array2) :
  shape_ok n m a = true <-> length a = m /\ Forall (fun c => length c = n) a.
Proof.
  unfold shape_ok. rewrite andb_true_iff, Nat.eqb_eq, forallb_forall, Forall_forall.
  split; intros [H1 H2]; split; auto; intros c Hc; specialize (H2 c Hc);
    now apply Nat.eqb_eq.
Qed.


Lemma Forall2_nth_rel {A B : Type} (R : A -> B -> Prop) l l' da db j :
  Forall2 R l l' -> (j < length l)%nat -> R (nth j l da) (nth j l' db).
Proof.
  intros H; revert j; induction H; intros j Hj; simpl in *; [lia|].
  destruct j; [assumption | apply IHForall2; lia].
Qed.



(** ** Indexing *)

Lemma getitem_nonneg (a : array1) (i : Z) (x : Q) :
  (0 <= i)%Z -> getitem a i = Ok x ->
  (Z.to_nat i < length a)%nat /\ x = nth (Z.to_nat i) a 0.
Proof.
  intros Hi. unfold getitem.
  destruct (Z.leb_spec 0 i); [|lia]. destruct (Z.ltb_spec i (Z.of_nat (length a))); simpl.
  - intros Hx; injection Hx as <-. split; [lia | reflexivity].
  - destruct (Z.ltb_spec i 0); [lia|]. rewrite andb_false_r. discriminate.
Qed.


Lemma getitem_last (a : array1) :
  a <> [] -> getitem a (-1) = Ok (last a 0).
Proof.
  intros Hne. destruct (exists_last Hne) as (a' & x & ->).
  unfold getitem. rewrite last_last, length_app. simpl length.
  destruct (Z.leb_spec 0 (-1)); [lia|]. simpl andb.
  destruct (Z.leb_spec (- Z.of_nat (length a' + 1)) (-1)); [|lia].
  destruct (Z.ltb_spec (-1) 0); [|lia]. simpl andb. cbv iota.
  replace (Z.to_nat (-1 + Z.of_nat (length a' + 1))) with (length a') by lia.
  now rewrite nth_middle.
Qed.

Lemma mapM_seq {B : Type} (f : nat -> result B) (s n : nat) (l' : list B) (d : B) :
  mapM f (seq s n) = Ok l' ->
  length l' = n /\ forall j, (j < n)%nat -> f (s + j)%nat = Ok (nth j l' d).
Proof.
  intros H. split.
  - apply mapM_length in H. now rewrite length_seq in H.
  - intros j Hj. rewrite <- (seq_nth s O Hj).
    apply mapM_nth; [assumption | now rewrite length_seq].
Qed.

Lemma column_nth (a : array2) (j : nat) (c : array1) :
  column a j = Ok c -> (j < length a)%nat /\ c = nth j a [].
Proof.
  unfold column. destruct (nth_error a j) eqn:E; [|discriminate].
  intros H; injection H as <-. split.
  - apply nth_error_Some. congruence.
  - symmetry. now apply nth_error_nth.
Qed.


(** ** Decimation *)

Lemma np_zeros_inv (n : Z) (z : array1) :
  np_zeros n = Ok z -> (0 <= n)%Z /\ z = repeat 0 (Z.to_nat n).
Proof.
  unfold np_zeros. destruct (Z.ltb_spec n 0); [discriminate|].
  intros Hz; injection Hz as <-. split; [lia | reflexivity].
Qed.

Lemma np_ones_inv (n : Z) (z : array1) :
  np_ones n = Ok z -> (0 <= n)%Z /\ z = repeat 1 (Z.to_nat n).
Proof.
  unfold np_ones. destruct (Z.ltb_spec n 0); [discriminate|].
  intros Hz; injection Hz as <-. split; [lia | reflexivity].
Qed.

Lemma decimate_from_inv M resmpl first rest out :
  decimate_from M resmpl first rest = Ok out ->
  (1 <= M)%Z /\ length out = Z.to_nat M /\
  getitem first 0 = Ok (nth 0 out 0) /\
  forall jj, (1 <= jj < Z.to_nat M)%nat ->
    getitem rest (resmpl * Z.of_nat jj) = Ok (nth jj out 0).
Proof.
  unfold decimate_from. intros H. inv_bind H. inv_bind H.
  apply np_zeros_inv in E as [HM ->].
  destruct (Z.to_nat M) as [|m] eqn:Em; simpl in H; [discriminate|].
  inv_bind H. injection H as <-. rewrite repeat_length in E.
  apply (mapM_seq _ _ _ _ 0) in E as [Hlen Hnth].
  split; [lia|]. split; [simpl; lia|]. split; [assumption|].
  intros [|jj] Hjj; [lia|]. simpl. rewrite <- Hnth by lia.
  reflexivity.
Qed.

Lemma decimate_inv M resmpl n_traces vel vel_l :
  decimate M resmpl n_traces vel = Ok vel_l ->
  length vel_l = n_traces /\
  forall t, (t < n_traces)%nat ->
    decimate_from M resmpl (nth t vel []) (nth t vel []) = Ok (nth t vel_l []).
Proof.
  unfold decimate. intros H.
  apply (mapM_seq _ _ _ _ []) in H as [Hlen Hnth]. split; [assumption|].
  intros t Ht. specialize (Hnth t Ht). simpl in Hnth.
  inv_bind Hnth. apply column_nth in E as [_ ->]. assumption.
Qed.

Lemma decimate_density_inv M resmpl n_traces rho2 rho rho_l :
  decimate_density M resmpl n_traces rho2 rho = Ok rho_l ->
  length rho_l = n_traces /\
  forall t, (t < n_traces)%nat ->
    decimate_from M resmpl (nth t rho2 []) (nth t rho []) = Ok (nth t rho_l []).
Proof.
  unfold decimate_density. intros H.
  apply (mapM_seq _ _ _ _ []) in H as [Hlen Hnth]. split; [assumption|].
  intros t Ht. specialize (Hnth t Ht). simpl in Hnth.
  inv_bind Hnth. inv_bind Hnth.
  apply column_nth in E as [_ ->]. apply column_nth in E0 as [_ ->]. assumption.
Qed.

(** ** Reflectivity *)

Lemma truthy_py_invert (b : bool) : truthy (py_invert b) = true.
Proof. destruct b; reflexivity. Qed.

Lemma reflectivity_velocity_only rho vel_l rho_l :
  reflectivity rho vel_l rho_l = mapM rc_trace vel_l.
Proof.
  unfold reflectivity. now rewrite truthy_py_invert.
Qed.

Lemma rc_loop_length prev rest rs :
  rc_loop prev rest = Ok rs -> length rs = length rest.
Proof.
  revert prev rs; induction rest as [|cur rest IH]; intros prev rs H; simpl in H.
  - injection H as <-. reflexivity.
  - inv_bind H. inv_bind H. injection H as <-. simpl. f_equal. eauto.
Qed.

Lemma rc_trace_inv z rc :
  rc_trace z = Ok rc ->
  length rc = length z /\ (z <> [] -> nth_error rc 0 = Some 0).
Proof.
  destruct z as [|z0 rest]; simpl; intros H.
  - injection H as <-. split; [reflexivity | congruence].
  - inv_bind H. injection H as <-. apply rc_loop_length in E.
    split; [simpl; lia | reflexivity].
Qed.

Lemma fine_resampling_inv n_samples n_traces model dz dt fs :
  fine_resampling n_samples n_traces model dz dt = Ok fs ->
  exists q,
    travel_times n_samples n_traces model dz = Ok (f_TWT fs) /\
    py_max (map (fun c => last c 0) (f_TWT fs)) = Ok (f_TMAX fs) /\
    np_div (f_TMAX fs) (dt / 10) = Ok q /\ f_N fs = Qceiling q /\
    fine_grid (dt / 10) (f_N fs) = Ok (f_TWT_rs fs) /\
    resample (dt / 10) (f_N fs) (f_TWT_rs fs) n_traces (f_TWT fs) model
      = Ok (f_vel fs).
Proof.
  unfold fine_resampling. intros H.
  inv_bind H. inv_bind H. inv_bind H. inv_bind H. inv_bind H. inv_bind H.
  injection H as <-. simpl. exists r2. repeat (split; [assumption|]).
  split; [reflexivity|]. split; assumption.
Qed.

(** The steps of a successful run, read back from its result. *)
Lemma run_internals_inv n_samples n_traces model dz dt rho s :
  run_internals n_samples n_traces model dz dt rho = Ok s ->
  exists N M resmpl,
    travel_times n_samples n_traces model dz = Ok (i_TWT s) /\
    py_max (map (fun c => last c 0) (i_TWT s)) = Ok (i_TMAX s) /\
    np_div (i_TMAX s) (dt / 10) = Ok N /\
    fine_grid (dt / 10) (Qceiling N) = Ok (i_TWT_rs s) /\
    resample (dt / 10) (Qceiling N) (i_TWT_rs s) n_traces (i_TWT s) model
      = Ok (i_vel s) /\
    np_div (i_TMAX s) dt = Ok M /\
    py_div dt (dt / 10) = Ok resmpl /\
    decimate (Qceiling M) (py_int resmpl) n_traces (i_vel s) = Ok (i_vel_l s) /\
    time_axis (Qceiling M) (py_int resmpl) n_traces (i_TWT_rs s)
      = Ok (i_TWT_ts s) /\
    density_block (dt / 10) (Qceiling N) (Qceiling M) (py_int resmpl)
      (i_TWT_rs s) n_traces (i_TWT s) rho
      = Ok (match i_rho2 s, i_rho_l s with
            | Some a, Some b => Some (a, b)
            | _, _ => None
            end) /\
    mapM rc_trace (i_vel_l s) = Ok (i_rc s).
Proof.
  unfold run_internals. intros H.
  inv_bind H. rename r into fs. rename E into Efs.
  inv_bind H. inv_bind H. inv_bind H. inv_bind H. inv_bind H. inv_bind H.
  rewrite reflectivity_velocity_only in E4.
  injection H as <-. simpl.
  apply fine_resampling_inv in Efs as (q & H1 & H2 & H3 & H4 & H5 & H6).
  rewrite H4 in *.
  exists q, r, r0. repeat (split; [assumption|]).
  split; [|assumption].
  rewrite E3. destruct r3 as [[a b]|]; reflexivity.
Qed.

Lemma decimated_columns M resmpl n_traces vel vel_l :
  decimate M resmpl n_traces vel = Ok vel_l ->
  length vel_l = n_traces /\
  Forall (fun c => (1 <= M)%Z /\ length c = Z.to_nat M) vel_l.
Proof.
  intros H. apply decimate_inv in H as [Hlen Hcols].
  split; [assumption|].
  apply Forall_forall. intros c Hc.
  destruct (In_nth _ _ [] Hc) as (t & Ht & <-).
  rewrite Hlen in Ht. specialize (Hcols t Ht).
  apply decimate_from_inv in Hcols. tauto.
Qed.

Lemma reflectivity_columns vel_l rc :
  mapM rc_trace vel_l = Ok rc ->
  Forall2 (fun z r => length r = length z /\ (z <> [] -> nth_error r 0 = Some 0))
          vel_l rc.
Proof.
  intros H. apply mapM_Forall2 in H.
  induction H; constructor; auto using rc_trace_inv.
Qed.

(** C8: whatever the input, with or without a density array, the first
    sample of the reflectivity series of every trace is 0. *)
Theorem reflectivity_first_sample_zero n_samples n_traces model dz dt rho s :
  run_internals n_samples n_traces model dz dt rho = Ok s ->
  length (i_rc s) = n_traces /\
  forall t, (t < n_traces)%nat -> nth_error (nth t (i_rc s) []) 0 = Some 0.
Proof.
  intros H. apply run_internals_inv in H as (N & M & resmpl & H).
  destruct H as (_ & _ & _ & _ & _ & _ & _ & Hdec & _ & _ & Hrc).
  apply decimated_columns in Hdec as [Hlen Hcols].
  apply reflectivity_columns in Hrc.
  pose proof (Forall2_length Hrc) as Hlen'.
  split; [lia|].
  intros t Ht.
  assert (Hin : In (nth t (i_vel_l s) []) (i_vel_l s)) by (apply nth_In; lia).
  rewrite Forall_forall in Hcols. destruct (Hcols _ Hin) as [HM Hl].
  destruct (Forall2_nth_rel _ _ _ [] [] t Hrc) as [_ H0]; [lia|].
  apply H0. intros E. rewrite E in Hl. simpl in Hl. lia.
Qed.

Lemma reflectivity_first_sample_zero_witness :
  exists s, run_internals 11 1 ex_velocity 2 10 (RhoArray ex_density_ramp) = Ok s /\
    length (i_rc s) = 1%nat /\
    forall t, (t < 1)%nat -> nth_error (nth t (i_rc s) []) 0 = Some 0.
Proof.
  eexists. split.
  - vm_compute. reflexivity.
  - apply (reflectivity_first_sample_zero 11 1 ex_velocity 2 10
             (RhoArray ex_density_ramp)).
    vm_compute. reflexivity.
Defined.

(** C1 (the code departs from the specification): the reflectivity never depends on
    the density argument.  On [ex_velocity] with the density
    [ex_density_step], the run succeeds, the decimated impedance is 4 then
    12, yet the reflection coefficient at sample 1 is 0 and not
    [(12 - 4) / (12 + 4)]. *)
Theorem density_array_ignored_by_reflectivity :
  (forall rho vel_l rho_l,
     reflectivity rho vel_l rho_l = reflectivity (RhoScalar 1) vel_l None) /\
  exists s rho_l,
    run_internals 11 1 ex_velocity 2 10 (RhoArray ex_density_step) = Ok s /\
    i_rho_l s = Some rho_l /\
    get2 (i_vel_l s) 0 0 * get2 rho_l 0 0 == 4 /\
    get2 (i_vel_l s) 1 0 * get2 rho_l 1 0 == 12 /\
    get2 (i_rc s) 1 0 == 0 /\
    ~ get2 (i_rc s) 1 0 ==
      (get2 (i_vel_l s) 1 0 * get2 rho_l 1 0 - get2 (i_vel_l s) 0 0 * get2 rho_l 0 0)
      / (get2 (i_vel_l s) 1 0 * get2 rho_l 1 0 + get2 (i_vel_l s) 0 0 * get2 rho_l 0 0).
Proof.
  split.
  { intros rho vel_l rho_l. now rewrite !reflectivity_velocity_only. }
  eexists. eexists. split; [vm_compute; reflexivity|].
  split; [vm_compute; reflexivity|].
  repeat split; try (vm_compute; reflexivity).
  intros H. vm_compute in H. discriminate.
Qed.

(** C2 (the code departs from the specification): past sample 0 the decimated
    density is read from the raw array, [rho_l[jj, t] = rho[resmpl*jj, t]].
    On [ex_velocity] with the density [ex_density_ramp], the decimated
    density at sample 1 is [rho[10] = 11], while the fine-resampled density
    [rho2[10]] is 9; and on a five-sample model, reading [rho[10]] raises
    [IndexError]. *)
Theorem density_decimation_reads_raw_density :
  (forall M resmpl n_traces rho2 rho rho_l t jj,
     decimate_density M resmpl n_traces rho2 rho = Ok rho_l ->
     (t < n_traces)%nat -> (1 <= jj < Z.to_nat M)%nat ->
     getitem (nth t rho []) (resmpl * Z.of_nat jj) = Ok (get2 rho_l jj t)) /\
  (exists s rho2 rho_l,
     run_internals 11 1 ex_velocity 2 10 (RhoArray ex_density_ramp) = Ok s /\
     i_rho2 s = Some rho2 /\ i_rho_l s = Some rho_l /\
     get2 rho_l 1 0 = get2 ex_density_ramp 10 0 /\
     get2 rho_l 1 0 == 11 /\
     get2 rho2 10 0 == 9) /\
  run_internals 5 1 [repeat 4 5] 2 (25 # 10) (RhoArray [repeat 1 5])
    = Raise IndexError /\
  (exists s, run_internals 5 1 [repeat 4 5] 2 (25 # 10) (RhoScalar 1) = Ok s).
Proof.
  split; [|split; [|split]].
  - intros M resmpl n_traces rho2 rho rho_l t jj H Ht Hjj.
    apply decimate_density_inv in H as [_ H]. specialize (H t Ht).
    apply decimate_from_inv in H as (_ & _ & _ & H). now apply H.
  - eexists. eexists. eexists. split; [vm_compute; reflexivity|].
    split; [vm_compute; reflexivity|]. split; [vm_compute; reflexivity|].
    repeat split; vm_compute; reflexivity.
  - vm_compute. reflexivity.
  - eexists. vm_compute. reflexivity.
Qed.

(** ** The fine grid and the time axis *)




Lemma py_int_of_integer q z : q == inject_Z z -> py_int q = z.
Proof.
  unfold Qeq, py_int. simpl. intros H. rewrite Z.mul_1_r in H. rewrite H.
  apply Z.quot_mul. discriminate.
Qed.

Lemma resmpl_is_ten dt r : py_div dt (dt / 10) = Ok r -> py_int r = 10%Z.
Proof.
  intros H. apply py_div_inv in H as [Hnz ->].
  apply py_int_of_integer.
  assert (~ dt == 0) by (intros E; apply Hnz; rewrite E; reflexivity).
  change (inject_Z 10) with 10. field. assumption.
Qed.

Lemma time_axis_trace_inv M resmpl g col :
  time_axis_trace M resmpl g = Ok col ->
  length col = Z.to_nat M /\
  ((1 <= M)%Z -> nth_error col 0 = Some 0) /\
  forall j, (1 <= j < Z.to_nat M)%nat ->
    getitem g (resmpl * Z.of_nat j) = Ok (nth j col 0).
Proof.
  unfold time_axis_trace. intros H. inv_bind H.
  apply np_zeros_inv in E as [HM ->].
  destruct (Z.to_nat M) as [|m] eqn:Em; simpl in H.
  - injection H as <-. repeat split; simpl; lia.
  - inv_bind H. injection H as <-. rewrite repeat_length in E.
    apply (mapM_seq _ _ _ _ 0) in E as [Hlen Hnth].
    split; [simpl; lia|]. split; [reflexivity|].
    intros [|j] Hj; [lia|]. simpl. rewrite <- Hnth by lia. reflexivity.
Qed.

Lemma nth_repeat_lt {A : Type} (x d : A) n t : (t < n)%nat -> nth t (repeat x n) d = x.
Proof.
  revert t; induction n as [|n IH]; intros t Ht; [lia|].
  destruct t; simpl; [reflexivity | apply IH; lia].
Qed.


(** ** The Ricker wavelet *)

Lemma nth_map_default {A B : Type} (g : A -> B) (l : list A) (d : A) (d' : B) i :
  (i < length l)%nat -> nth i (map g l) d' = g (nth i l d).
Proof.
  intros Hi. rewrite (nth_indep _ d' (g d)) by now rewrite length_map.
  apply map_nth.
Qed.

Lemma np_arange_length a b : length (np_arange a b) = Z.to_nat (b - a).
Proof. unfold np_arange. now rewrite length_map, length_seq. Qed.

Lemma np_arange_nth a b i :
  (i < Z.to_nat (b - a))%nat ->
  nth i (np_arange a b) 0 = inject_Z (a + Z.of_nat i).
Proof.
  intros Hi. unfold np_arange.
  rewrite (nth_map_default _ _ O) by now rewrite length_seq.
  now rewrite seq_nth.
Qed.

Lemma Qfloor_half_odd c : Qfloor (inject_Z (2 * c + 1) / 2) = c.
Proof.
  remember (2 * c + 1)%Z as z eqn:Hz.
  unfold Qfloor, Qdiv, Qmult, Qinv, inject_Z. simpl.
  rewrite Z.mul_1_r. subst z. symmetry. apply (Z.div_unique _ _ _ 1); lia.
Qed.

(** The amplitude of the wavelet at the sample whose index (from 1) is [k]. *)
Lemma rickerwave_inv Qexp Qpi f dt w :
  rickerwave Qexp Qpi f dt = Ok w ->
  exists nw_raw c,
    nw_raw == (22 # 10) / f / dt /\ c = Qfloor (nw_raw / 2) /\ (0 <= c)%Z /\
    length w = (2 * Z.to_nat c + 1)%nat /\
    forall i, (i < length w)%nat ->
      nth i w 0 =
      (1 - ((inject_Z c - inject_Z (1 + Z.of_nat i) + 1) * f * dt * Qpi) ^ 2 * 2)
      * Qexp (- ((inject_Z c - inject_Z (1 + Z.of_nat i) + 1) * f * dt * Qpi) ^ 2).
Proof.
  unfold rickerwave. intros H. inv_bind H. inv_bind H. inv_bind H.
  apply py_div_inv in E as [_ ->]. apply py_div_inv in E0 as [_ ->].
  apply np_zeros_inv in E1 as [Hnw _].
  remember (Qfloor ((22 # 10) / f / dt / 2)) as c eqn:Ec in *.
  rewrite Qfloor_half_odd in H.
  assert (Hw : w = map (fun k : Q =>
              (1 - ((inject_Z c - k + 1) * f * dt * Qpi) ^ 2 * 2)
              * Qexp (- ((inject_Z c - k + 1) * f * dt * Qpi) ^ 2))
              (np_arange 1 (2 * c + 1 + 1))) by congruence.
  clear H. subst w.
  exists ((22 # 10) / f / dt), c.
  assert (Hc : (0 <= c)%Z) by lia.
  split; [reflexivity|]. split; [assumption|]. split; [assumption|].
  rewrite length_map, np_arange_length.
  split; [lia|].
  intros i Hi. rewrite (nth_map_default _ _ 0) by (rewrite np_arange_length; lia).
  rewrite np_arange_nth by lia. reflexivity.
Qed.






(** ** The convolution *)

Lemma np_convolve_full_length a v :
  a <> [] -> v <> [] ->
  exists full, np_convolve Full a v = Ok full /\
    length full = (length a + length v - 1)%nat.
Proof.
  intros Ha Hv. unfold np_convolve.
  destruct a as [|x a]; [congruence|]. destruct v as [|y v]; [congruence|].
  destruct (length (x :: a) <? length (y :: v))%nat;
    eexists; (split; [reflexivity|]); rewrite length_map, length_seq; lia.
Qed.

Lemma np_convolve_same_length a v :
  a <> [] -> v <> [] -> (length v <= length a)%nat ->
  exists out, np_convolve Same a v = Ok out /\ length out = length a.
Proof.
  intros Ha Hv Hle. unfold np_convolve.
  destruct a as [|x a]; [congruence|]. destruct v as [|y v]; [congruence|].
  destruct (Nat.ltb_spec (length (x :: a)) (length (y :: v))); [lia|].
  eexists; split; [reflexivity|].
  rewrite length_firstn, length_skipn, length_map, length_seq.
  assert ((length (y :: v) - 1) / 2 <= length (y :: v) - 1)%nat
    by (apply Nat.Div0.div_le_upper_bound; lia).
  simpl length in *. remember ((S (length v) - 1) / 2)%nat as d. lia.
Qed.

Lemma slice_bound_nonneg n i :
  (0 <= i)%Z -> slice_bound n i = Nat.min (Z.to_nat i) n.
Proof. intros Hi. unfold slice_bound. destruct (Z.ltb_spec i 0); lia. Qed.

Lemma slice_bound_neg n i :
  (i < 0)%Z -> (0 <= i + Z.of_nat n)%Z ->
  slice_bound n i = (n - Z.to_nat (- i))%nat.
Proof. intros Hi Hn. unfold slice_bound. destruct (Z.ltb_spec i 0); lia. Qed.

Lemma getslice_length a start stop :
  length (getslice a start stop)
  = (slice_stop (length a) stop - slice_bound (length a) start)%nat.
Proof.
  unfold getslice. rewrite length_firstn, length_skipn.
  assert (slice_stop (length a) stop <= length a)%nat.
  { destruct stop as [s|]; simpl; [|lia]. unfold slice_bound. lia. }
  lia.
Qed.

(** The convolution branch on a non-empty trace and a wavelet of odd length
    [2 * c + 1]. *)
Lemma convolve_trace_length w col c :
  col <> [] -> length w = (2 * c + 1)%nat ->
  exists out, convolve_trace (length col) w col = Ok out /\
    length out = length col /\
    ((length w <= length col)%nat -> np_convolve Same col w = Ok out) /\
    ((length col < length w)%nat ->
       exists full, np_convolve Full col w = Ok full /\
         length full = (length col + 2 * c)%nat /\
         Qfloor (inject_Z (Z.of_nat (length w)) / 2) = Z.of_nat c /\
         out = getslice full (Z.of_nat c) (Some (- Z.of_nat c)%Z)).
Proof.
  intros Hcol Hw. unfold convolve_trace.
  assert (Hwne : w <> []) by (intros ->; simpl in Hw; lia).
  destruct (Nat.leb_spec (length w) (length col)) as [Hle|Hlt].
  - destruct (np_convolve_same_length col w Hcol Hwne Hle) as (out & Hout & Hlen).
    exists out. repeat split; auto. lia.
  - destruct (np_convolve_full_length col w Hcol Hwne) as (full & Hfull & Hlen).
    rewrite Hfull. cbn [bind].
    assert (Haux : Qfloor (inject_Z (Z.of_nat (length w)) / 2) = Z.of_nat c).
    { rewrite Hw. replace (Z.of_nat (2 * c + 1)) with (2 * Z.of_nat c + 1)%Z by lia.
      apply Qfloor_half_odd. }
    rewrite Haux. eexists. split; [reflexivity|].
    assert (Hc : (1 <= c)%nat) by (destruct col; [congruence | simpl in *; lia]).
    split; [|split; [lia|]].
    + rewrite getslice_length. simpl slice_stop.
      rewrite (slice_bound_nonneg _ (Z.of_nat c)) by lia.
      rewrite (slice_bound_neg _ (- Z.of_nat c)) by lia. lia.
    + intros _. exists full. repeat split; auto. lia.
Qed.

Lemma rickerwave_odd_length Qexp Qpi f dt w :
  rickerwave Qexp Qpi f dt = Ok w -> exists c, length w = (2 * c + 1)%nat.
Proof.
  intros H. apply rickerwave_inv in H as (_ & c & _ & _ & _ & Hlen & _).
  now exists (Z.to_nat c).
Qed.

(** The reflectivity array of a successful run: one column per trace, all of
    the same, positive, number of rows. *)
Lemma reflectivity_shape n_samples n_traces model dz dt rho s :
  run_internals n_samples n_traces model dz dt rho = Ok s ->
  length (i_rc s) = n_traces /\
  forall t, (t < n_traces)%nat ->
    nth t (i_rc s) [] <> [] /\ length (nth t (i_rc s) []) = n_rows (i_rc s).
Proof.
  intros H. apply run_internals_inv in H as (N & M & resmpl & H).
  destruct H as (_ & _ & _ & _ & _ & _ & _ & Hdec & _ & _ & Hrc).
  apply decimated_columns in Hdec as [Hlen Hcols].
  apply reflectivity_columns in Hrc.
  pose proof (Forall2_length Hrc) as Hlen'.
  assert (Hall : forall t, (t < n_traces)%nat ->
            (1 <= Qceiling M)%Z /\
            length (nth t (i_rc s) []) = Z.to_nat (Qceiling M)).
  { intros t Ht.
    assert (Hin : In (nth t (i_vel_l s) []) (i_vel_l s)) by (apply nth_In; lia).
    rewrite Forall_forall in Hcols. destruct (Hcols _ Hin) as [HM Hl].
    destruct (Forall2_nth_rel _ _ _ [] [] t Hrc) as [Hl' _]; [lia|].
    split; [assumption | congruence]. }
  split; [lia|]. intros t Ht.
  destruct (Hall t Ht) as [HM Hl]. split.
  - intros E. rewrite E in Hl. simpl in Hl. lia.
  - destruct (Hall 0%nat) as [_ Hl0]; [lia|].
    rewrite Hl, <- Hl0. unfold n_rows.
    destruct (i_rc s); [simpl in *; lia | reflexivity].
Qed.

(** C4: for every wavelet the generator returns and every reflectivity trace
    of a run, the convolution step returns a trace of the length of its
    input: by the centred convolution when the trace is at least as long as
    the wavelet, and otherwise by the full convolution trimmed of
    [floor(len(w) / 2)] samples at each end. *)
Theorem convolution_preserves_trace_length Qexp Qpi f dt w :
  rickerwave Qexp Qpi f dt = Ok w ->
  (forall col, col <> [] ->
     exists out, convolve_trace (length col) w col = Ok out /\
       length out = length col /\
       ((length w <= length col)%nat -> np_convolve Same col w = Ok out) /\
       ((length col < length w)%nat ->
          exists full, np_convolve Full col w = Ok full /\
            out = getslice full (Qfloor (inject_Z (Z.of_nat (length w)) / 2))
                    (Some (- Qfloor (inject_Z (Z.of_nat (length w)) / 2))%Z))) /\
  (forall n_samples n_traces model dz rho s t,
     run_internals n_samples n_traces model dz dt rho = Ok s ->
     (t < n_traces)%nat ->
     exists out,
       convolve_trace (n_rows (i_rc s)) w (nth t (i_rc s) []) = Ok out /\
       length out = length (nth t (i_rc s) [])).
Proof.
  intros Hw. destruct (rickerwave_odd_length _ _ _ _ _ Hw) as (c & Hc).
  split.
  - intros col Hcol.
    destruct (convolve_trace_length w col c Hcol Hc) as (out & H1 & H2 & H3 & H4).
    exists out. repeat split; auto.
    intros Hlt. destruct (H4 Hlt) as (full & Hf & _ & Haux & Hout).
    exists full. rewrite Haux. auto.
  - intros n_samples n_traces model dz rho s t Hrun Ht.
    destruct (reflectivity_shape _ _ _ _ _ _ _ Hrun) as [_ Hshape].
    destruct (Hshape t Ht) as [Hne Hrows]. rewrite <- Hrows.
    destruct (convolve_trace_length w _ c Hne Hc) as (out & H1 & H2 & _).
    eauto.
Qed.

Lemma convolution_preserves_trace_length_witness :
  exists w, rickerwave exp_taylor2 pi_approx 1 (1 # 4) = Ok w /\
    (exists out, convolve_trace 2 w [1; 2] = Ok out /\ length out = 2%nat) /\
    (exists out, convolve_trace 11 w (repeat 1 11) = Ok out /\ length out = 11%nat).
Proof.
  eexists. split.
  - vm_compute. reflexivity.
  - match goal with
    | |- (exists out, convolve_trace _ ?w _ = _ /\ _) /\ _ =>
        assert (Hw : rickerwave exp_taylor2 pi_approx 1 (1 # 4) = Ok w)
          by (vm_compute; reflexivity);
        destruct (convolution_preserves_trace_length
                    exp_taylor2 pi_approx 1 (1 # 4) w Hw) as [H _]
    end.
    split.
    + destruct (H [1; 2]) as (out & H1 & H2 & _); [discriminate|].
      exists out. split; assumption.
    + destruct (H (repeat 1 11)) as (out & H1 & H2 & _); [discriminate|].
      exists out. split; assumption.
Defined.

(** ** Maximum and minimum *)


Lemma Qlt_bool_false a b : Qlt_bool a b = false -> b <= a.
Proof.
  unfold Qlt_bool. intros H. apply negb_false_iff in H.
  now apply Qle_bool_iff.
Qed.

Lemma Qlt_bool_lt a b : a < b -> Qlt_bool a b = true.
Proof.
  intros H. destruct (Qlt_bool a b) eqn:E; [reflexivity|].
  apply Qlt_bool_false in E. exfalso. apply (Qlt_irrefl a).
  eapply Qlt_le_trans; eauto.
Qed.






(** ** Increasing sequences *)








(** ** Linear interpolation *)






Lemma getitem_In a i v : getitem a i = Ok v -> In v a.
Proof.
  unfold getitem.
  destruct (Z.leb_spec 0 i); destruct (Z.ltb_spec i (Z.of_nat (length a)));
    simpl; try (intros Hv; injection Hv as <-; apply nth_In; lia).
  - destruct (Z.ltb_spec i 0); [lia|]. rewrite andb_false_r. discriminate.
  - destruct (Z.leb_spec (- Z.of_nat (length a)) i);
      destruct (Z.ltb_spec i 0); simpl; try discriminate.
    intros Hv; injection Hv as <-. apply nth_In. lia.
  - destruct (Z.leb_spec (- Z.of_nat (length a)) i);
      destruct (Z.ltb_spec i 0); simpl; try discriminate.
    lia.
Qed.





(** ** Slices *)

Lemma slice_bound_le n i : (slice_bound n i <= n)%nat.
Proof. unfold slice_bound. destruct (Z.ltb_spec i 0); lia. Qed.

Lemma slice_stop_le n stop : (slice_stop n stop <= n)%nat.
Proof. destruct stop; simpl; [apply slice_bound_le | lia]. Qed.

Lemma setslice_scalar_length a start stop v :
  length (setslice_scalar a start stop v) = length a.
Proof.
  unfold setslice_scalar.
  pose proof (slice_bound_le (length a) start).
  pose proof (slice_stop_le (length a) stop).
  rewrite !length_app, length_firstn, repeat_length, length_skipn. lia.
Qed.

Lemma setslice_ok a start stop vs :
  length vs = (slice_stop (length a) stop - slice_bound (length a) start)%nat ->
  setslice a start stop vs
  = Ok (firstn (slice_bound (length a) start) a ++ vs
        ++ skipn (slice_bound (length a) start
                  + (slice_stop (length a) stop - slice_bound (length a) start)) a)
  /\ length (firstn (slice_bound (length a) start) a ++ vs
        ++ skipn (slice_bound (length a) start
                  + (slice_stop (length a) stop - slice_bound (length a) start)) a)
     = length a.
Proof.
  intros Hlen. unfold setslice. rewrite Hlen, Nat.eqb_refl. split; [reflexivity|].
  pose proof (slice_bound_le (length a) start).
  pose proof (slice_stop_le (length a) stop).
  rewrite !length_app, length_firstn, length_skipn. lia.
Qed.




(** ** Ceilings *)





(** ** Resampling of one trace *)


(** ** The fine resampling of a positive model *)




Lemma resample_inv d N g n_traces TWT prop vel :
  resample d N g n_traces TWT prop = Ok vel ->
  (0 <= N)%Z /\ length vel = n_traces /\
  forall t, (t < n_traces)%nat ->
    resample_trace d g (repeat 1 (Z.to_nat N)) (nth t TWT []) (nth t prop [])
    = Ok (nth t vel []).
Proof.
  unfold resample. intros H. inv_bind H. apply np_ones_inv in E as [HN ->].
  apply (mapM_seq _ _ _ _ []) in H as [Hlen Hnth].
  split; [assumption|]. split; [assumption|].
  intros t Ht. specialize (Hnth t Ht). simpl in Hnth.
  inv_bind Hnth. inv_bind Hnth.
  apply column_nth in E as [_ ->]. apply column_nth in E0 as [_ ->]. assumption.
Qed.





(** ** From the internals to the returned arrays *)




(** ** Velocities that are not positive *)

Lemma Qdiv_neg a b : 0 < a -> b < 0 -> a / b < 0.
Proof.
  intros Ha Hb.
  assert (H : 0 < a / (- b)) by (apply Qdiv_pos; lra).
  assert (E : a / - b == - (a / b)).
  { field. intros E. rewrite E in Hb. now apply Qlt_irrefl in Hb. }
  rewrite E in H. lra.
Qed.






(** ** A trace of constant velocity *)

Lemma firstn_app_length {A : Type} (l r : list A) : firstn (length l) (l ++ r) = l.
Proof. induction l as [|a l IH]; simpl; [now destruct r | now rewrite IH]. Qed.

Lemma skipn_app_length {A : Type} (l r : list A) : skipn (length l) (l ++ r) = r.
Proof. induction l as [|a l IH]; simpl; [reflexivity | exact IH]. Qed.

Lemma interp_call_inv tck qs ys :
  interp_call tck qs = Ok ys ->
  Forall2 (fun q y => interp_point tck q = Ok y) qs ys.
Proof.
  unfold interp_call. intros H. inv_bind H. inv_bind H.
  destruct (_ || _); [discriminate|]. now apply mapM_Forall2.
Qed.


Lemma Forall_repeat {A : Type} (P : A -> Prop) x n : P x -> Forall P (repeat x n).
Proof. intros Hx. induction n; simpl; constructor; auto. Qed.








(** ** Convolution of a zero trace *)




Lemma Forall_firstn_skipn {A : Type} (P : A -> Prop) (l : list A) i j :
  Forall P l -> Forall P (firstn i (skipn j l)).
Proof.
  intros H. rewrite <- (firstn_skipn j l) in H. apply Forall_app in H as [_ H].
  rewrite <- (firstn_skipn i (skipn j l)) in H. now apply Forall_app in H as [H _].
Qed.



(** ** A model of constant velocity *)



(** * Further properties of the code *)

(** ** What a density argument can and cannot do *)

Lemma run_internals_without_density n_samples n_traces model dz dt a r s :
  run_internals n_samples n_traces model dz dt (RhoArray a) = Ok s ->
  exists s', run_internals n_samples n_traces model dz dt (RhoScalar r) = Ok s' /\
    i_rc s' = i_rc s /\ i_TWT_ts s' = i_TWT_ts s /\ i_vel_l s' = i_vel_l s.
Proof.
  unfold run_internals. intros H.
  inv_bind H. rewrite E. cbn [bind].
  inv_bind H. rewrite E0. cbn [bind].
  inv_bind H. rewrite E1. cbn [bind].
  inv_bind H. rewrite E2. cbn [bind].
  inv_bind H. rewrite E3. cbn [bind].
  inv_bind H. inv_bind H.
  rewrite reflectivity_velocity_only in E5.
  injection H as <-. eexists. split.
  - unfold density_block. cbn [bind].
    rewrite reflectivity_velocity_only, E5. cbn [bind]. reflexivity.
  - auto.
Qed.

(** X1: a density array never changes what the function returns: whenever
    the call with a density array returns, the call with a scalar density
    returns the same seismogram and the same time axis. *)
Theorem density_array_never_changes_the_result
    Qexp Qpi n_samples n_traces model f dz dt a r out :
  seismic_convolutional_model Qexp Qpi n_samples n_traces model f dz dt
    (RhoArray a) = Ok out ->
  seismic_convolutional_model Qexp Qpi n_samples n_traces model f dz dt
    (RhoScalar r) = Ok out.
Proof.
  unfold seismic_convolutional_model. intros H.
  inv_bind H. inv_bind H. inv_bind H.
  destruct (run_internals_without_density _ _ _ _ _ _ r _ E)
    as (s' & Hs' & Hrc & Hts & _).
  rewrite Hs'. cbn [bind]. rewrite E0. cbn [bind].
  rewrite Hrc, E1. cbn [bind]. rewrite Hts. exact H.
Qed.

Lemma density_array_never_changes_the_result_witness :
  exists out,
    seismic_convolutional_model exp_taylor2 pi_approx 11 1 ex_velocity 1 2 10
      (RhoArray ex_density_step) = Ok out /\
    seismic_convolutional_model exp_taylor2 pi_approx 11 1 ex_velocity 1 2 10
      (RhoScalar 1) = Ok out.
Proof.
  eexists. split.
  - vm_compute. reflexivity.
  - apply (density_array_never_changes_the_result exp_taylor2 pi_approx 11 1
             ex_velocity 1 2 10 ex_density_step 1).
    vm_compute. reflexivity.
Defined.

Lemma TWT_loop_length dz vs : forall prev r,
  TWT_loop dz prev vs = Ok r -> length r = length vs.
Proof.
  induction vs as [|v vs IH]; intros prev r H; simpl in H.
  - injection H as <-. reflexivity.
  - inv_bind H. inv_bind H. injection H as <-. simpl. f_equal. eauto.
Qed.

Lemma TWT_trace_length dz col twt :
  TWT_trace dz col = Ok twt -> length twt = length col /\ twt <> [].
Proof.
  destruct col as [|v0 rest]; simpl; [discriminate|]. intros H.
  inv_bind H. inv_bind H. injection H as <-.
  apply TWT_loop_length in E0. split; [simpl; lia | discriminate].
Qed.

Lemma travel_times_shape n_samples n_traces model dz TWT :
  travel_times n_samples n_traces model dz = Ok TWT ->
  length TWT = n_traces /\
  forall t, (t < n_traces)%nat ->
    length (nth t TWT []) = n_samples /\ (1 <= n_samples)%nat.
Proof.
  unfold travel_times. destruct (shape_ok n_samples n_traces model) eqn:Hs;
    simpl; [|discriminate].
  intros H. apply shape_ok_spec in Hs as [Hm Hlen].
  pose proof (mapM_length _ _ _ H) as Hl. split; [lia|].
  intros t Ht.
  pose proof (mapM_nth _ _ _ [] [] t H) as Ht'.
  apply TWT_trace_length in Ht' as [Hl' Hne]; [|lia].
  rewrite Forall_forall in Hlen.
  assert (Hn : length (nth t model []) = n_samples)
    by (apply Hlen, nth_In; lia).
  split; [lia|]. destruct (nth t TWT []); [congruence | simpl in *; lia].
Qed.

Lemma interp1d_inv x y tck :
  interp1d x y = Ok tck -> length x = length y /\ (1 <= length x)%nat.
Proof.
  unfold interp1d. destruct (Nat.eqb_spec (length x) (length y)); simpl;
    [|discriminate].
  destruct (Nat.ltb_spec (length x) 1); [discriminate|]. intros _. lia.
Qed.

Lemma resample_trace_lengths d g init twt prop col :
  resample_trace d g init twt prop = Ok col ->
  length twt = length prop /\ (1 <= length prop)%nat.
Proof.
  unfold resample_trace. intros H.
  inv_bind H. inv_bind H. inv_bind H. inv_bind H. inv_bind H.
  apply interp1d_inv in E3. lia.
Qed.

(** X2: a call with a density array can return only if every density
    column in use has exactly [n_samples] rows and more than
    [10 * (n_out - 1)] of them, [n_out] being the number of output samples;
    otherwise line 81 or line 93 raises. *)
Theorem density_array_needs_enough_rows n_samples n_traces model dz dt a s :
  run_internals n_samples n_traces model dz dt (RhoArray a) = Ok s ->
  forall t, (t < n_traces)%nat ->
    length (nth t a []) = n_samples /\
    (10 * (Z.of_nat (length (nth t (i_TWT_ts s) [])) - 1) < Z.of_nat n_samples)%Z.
Proof.
  intros H t Ht.
  destruct (run_internals_inv _ _ _ _ _ _ _ H) as (N & M & resmpl & Hinv).
  destruct Hinv as (HTWT & _ & _ & _ & _ & _ & Hres & Hdec & Haxis & Hden & _).
  pose proof (resmpl_is_ten _ _ Hres) as Hten. rewrite Hten in *.
  apply travel_times_shape in HTWT as [_ HTWT].
  destruct (HTWT t Ht) as [Hlt Hn].
  unfold density_block in Hden. inv_bind Hden. inv_bind Hden. clear Hden.
  apply resample_inv in E as (_ & _ & E). specialize (E t Ht).
  apply resample_trace_lengths in E as [Hlen _].
  apply decimate_density_inv in E0 as [_ E0]. specialize (E0 t Ht).
  apply decimate_from_inv in E0 as (HM & _ & _ & Hjj).
  unfold time_axis in Haxis. inv_bind Haxis. injection Haxis as Haxis.
  apply time_axis_trace_inv in E as (Hlc & _ & _).
  rewrite <- Haxis, nth_repeat_lt, Hlc by assumption.
  split; [lia|].
  destruct (Z.eq_dec (Qceiling M) 1) as [E1|E1]; [rewrite E1; simpl; lia|].
  specialize (Hjj (Z.to_nat (Qceiling M) - 1)%nat).
  destruct (getitem_nonneg (nth t a []) (10 * Z.of_nat (Z.to_nat (Qceiling M) - 1))
              (nth (Z.to_nat (Qceiling M) - 1) (nth t r0 []) 0)) as [Hin _];
    [lia | apply Hjj; lia |].
  lia.
Qed.

Lemma density_array_needs_enough_rows_witness :
  exists s,
    run_internals 11 1 ex_velocity 2 10 (RhoArray ex_density_ramp) = Ok s /\
    forall t, (t < 1)%nat ->
      length (nth t ex_density_ramp []) = 11%nat /\
      (10 * (Z.of_nat (length (nth t (i_TWT_ts s) [])) - 1) < Z.of_nat 11)%Z.
Proof.
  eexists. split.
  - vm_compute. reflexivity.
  - apply (density_array_needs_enough_rows 11 1 ex_velocity 2 10 ex_density_ramp).
    vm_compute. reflexivity.
Defined.

(** ** The shape of what is returned *)

Lemma setslice_length a start stop vs out :
  setslice a start stop vs = Ok out -> length out = length a.
Proof.
  unfold setslice.
  pose proof (slice_bound_le (length a) start).
  pose proof (slice_stop_le (length a) stop).
  destruct (Nat.eqb_spec (length vs)
              (slice_stop (length a) stop - slice_bound (length a) start)).
  - intros Hout; injection Hout as <-.
    rewrite !length_app, length_firstn, length_skipn. lia.
  - destruct vs as [|v [|? ?]]; try discriminate.
    intros Hout; injection Hout as <-. apply setslice_scalar_length.
Qed.

(** X3: whenever the function returns, there is at least one trace, the
    seismogram and the time axis have one column per trace, and all their
    columns have the same number of samples, which is at least 1. *)
Theorem returned_arrays_have_one_shape
    Qexp Qpi n_samples n_traces model f dz dt rho synth_l TWT_ts :
  seismic_convolutional_model Qexp Qpi n_samples n_traces model f dz dt rho
    = Ok (synth_l, TWT_ts) ->
  (1 <= n_traces)%nat /\ (1 <= n_samples)%nat /\
  length synth_l = n_traces /\ length TWT_ts = n_traces /\
  exists n_out, (1 <= n_out)%nat /\
    forall t, (t < n_traces)%nat ->
      length (nth t synth_l []) = n_out /\ length (nth t TWT_ts []) = n_out.
Proof.
  unfold seismic_convolutional_model. intros H.
  inv_bind H. inv_bind H. inv_bind H. injection H as <- <-. rename r into s.
  destruct (run_internals_inv _ _ _ _ _ _ _ E) as (N & M & resmpl & Hinv).
  destruct Hinv as (HTWT & Hmax & _ & _ & _ & _ & _ & Hdec & Haxis & _ & Hrc).
  apply travel_times_shape in HTWT as [HlT HTWT].
  assert (Hm : (1 <= n_traces)%nat).
  { destruct (i_TWT s) as [|c l]; [simpl in Hmax; discriminate | simpl in HlT; lia]. }
  destruct (HTWT 0%nat) as [_ Hn]; [lia|].
  apply decimated_columns in Hdec as [Hlv Hcols].
  apply reflectivity_columns in Hrc.
  pose proof (Forall2_length Hrc) as Hlrc.
  unfold time_axis in Haxis. inv_bind Haxis. injection Haxis as Haxis.
  apply time_axis_trace_inv in E2 as (Hlc & _ & _).
  assert (Hrows : forall t, (t < n_traces)%nat ->
            (1 <= Qceiling M)%Z /\
            length (nth t (i_rc s) []) = Z.to_nat (Qceiling M)).
  { intros t Ht.
    assert (Hin : In (nth t (i_vel_l s) []) (i_vel_l s)) by (apply nth_In; lia).
    rewrite Forall_forall in Hcols. destruct (Hcols _ Hin) as [HM Hl].
    destruct (Forall2_nth_rel _ _ _ [] [] t Hrc) as [Hl' _]; [lia|].
    split; [assumption | congruence]. }
  assert (Hnr : n_rows (i_rc s) = Z.to_nat (Qceiling M)).
  { destruct (Hrows 0%nat) as [_ Hl]; [lia|]. unfold n_rows.
    destruct (i_rc s); [simpl in *; lia | exact Hl]. }
  unfold convolve_all in E1. apply mapM_Forall2 in E1.
  pose proof (Forall2_length E1) as Hls.
  split; [assumption|]. split; [assumption|].
  split.
  { etransitivity; [symmetry; exact Hls|].
    etransitivity; [symmetry; exact Hlrc | exact Hlv]. }
  split; [rewrite <- Haxis; apply repeat_length|].
  exists (Z.to_nat (Qceiling M)).
  destruct (Hrows 0%nat) as [HM _]; [lia|]. split; [lia|].
  intros t Ht. split.
  - pose proof (Forall2_nth_rel _ _ _ [] [] t E1) as Hout. cbv beta in Hout.
    assert (Ht' : (t < length (i_rc s))%nat) by lia.
    specialize (Hout Ht'). inv_bind Hout.
    apply setslice_length in Hout. rewrite repeat_length in Hout. lia.
  - rewrite <- Haxis, nth_repeat_lt by assumption. exact Hlc.
Qed.

Lemma returned_arrays_have_one_shape_witness :
  exists synth_l TWT_ts,
    seismic_convolutional_model exp_taylor2 pi_approx 2 1 ex_two_layers 1 10 10
      (RhoScalar 1) = Ok (synth_l, TWT_ts) /\
    length synth_l = 1%nat /\ length TWT_ts = 1%nat.
Proof.
  eexists. eexists. split.
  - vm_compute. reflexivity.
  - refine ((fun H => conj (proj1 (proj2 (proj2 H)))
                           (proj1 (proj2 (proj2 (proj2 H)))))
              (returned_arrays_have_one_shape exp_taylor2 pi_approx 2 1
                 ex_two_layers 1 10 10 (RhoScalar 1) _ _ _)).
    vm_compute. reflexivity.
Defined.

(** ** Where the wavelet is defined *)

Lemma Qfloor_neg y : y < 0 -> (Qfloor y < 0)%Z.
Proof.
  intros Hy. rewrite Zlt_Qlt. eapply Qle_lt_trans; [apply Qfloor_le | exact Hy].
Qed.

Lemma Qmult_nonzero_l a b : ~ a * b == 0 -> ~ a == 0.
Proof. intros H E. apply H. rewrite E. ring. Qed.

Lemma Qmult_nonzero_r a b : ~ a * b == 0 -> ~ b == 0.
Proof. intros H E. apply H. rewrite E. ring. Qed.

(** X4: [rickerwave(f, dt)] returns exactly when [f * dt > 0], and then
    with at least one sample; a zero [f] or [dt] raises
    [ZeroDivisionError], and [f * dt < 0] raises [ValueError] (the negative
    length given to [np.zeros]). *)
Theorem rickerwave_domain (Qexp : Q -> Q) (Qpi f dt : Q) :
  (f == 0 -> rickerwave Qexp Qpi f dt = Raise ZeroDivisionError) /\
  (~ f == 0 -> dt == 0 -> rickerwave Qexp Qpi f dt = Raise ZeroDivisionError) /\
  (f * dt < 0 -> rickerwave Qexp Qpi f dt = Raise ValueError) /\
  (0 < f * dt ->
     exists w, rickerwave Qexp Qpi f dt = Ok w /\ (1 <= length w)%nat).
Proof.
  split; [|split; [|split]].
  - intros Hf. unfold rickerwave, py_div.
    apply Qeq_eq_bool in Hf. now rewrite Hf.
  - intros Hf Hdt. unfold rickerwave. rewrite py_div_ok by assumption.
    cbn [bind]. unfold py_div. apply Qeq_eq_bool in Hdt. now rewrite Hdt.
  - intros Hneg.
    assert (Hnz : ~ f * dt == 0) by (intros E; rewrite E in Hneg; discriminate).
    pose proof (Qmult_nonzero_l _ _ Hnz) as Hf.
    pose proof (Qmult_nonzero_r _ _ Hnz) as Hdt.
    unfold rickerwave. rewrite py_div_ok by assumption. cbn [bind].
    rewrite py_div_ok by assumption. cbn [bind].
    assert (Hraw : (22 # 10) / f / dt / 2 < 0).
    { assert (E : (22 # 10) / f / dt == (22 # 10) / (f * dt)) by (field; auto).
      rewrite E. assert (Hx : (22 # 10) / (f * dt) < 0)
        by (apply Qdiv_neg; [reflexivity | assumption]).
      remember ((22 # 10) / (f * dt)) as x. clear - Hx.
      unfold Qdiv. setoid_replace 0 with (0 * / 2) by ring.
      apply Qmult_lt_compat_r; [reflexivity | assumption]. }
    apply Qfloor_neg in Hraw. unfold np_zeros.
    destruct (Z.ltb_spec (2 * Qfloor ((22 # 10) / f / dt / 2) + 1) 0); [|lia].
    reflexivity.
  - intros Hpos.
    assert (Hnz : ~ f * dt == 0) by now apply Qpos_neq0.
    pose proof (Qmult_nonzero_l _ _ Hnz) as Hf.
    pose proof (Qmult_nonzero_r _ _ Hnz) as Hdt.
    assert (Hw : exists w, rickerwave Qexp Qpi f dt = Ok w).
    { unfold rickerwave. rewrite py_div_ok by assumption. cbn [bind].
      rewrite py_div_ok by assumption. cbn [bind].
      assert (Hraw : 0 <= (22 # 10) / f / dt / 2).
      { assert (E : (22 # 10) / f / dt == (22 # 10) / (f * dt)) by (field; auto).
        rewrite E. apply Qlt_le_weak. apply Qdiv_pos; [|reflexivity].
        apply Qdiv_pos; [reflexivity | assumption]. }
      apply Qfloor_resp_le in Hraw. change (Qfloor 0) with 0%Z in Hraw.
      unfold np_zeros.
      destruct (Z.ltb_spec (2 * Qfloor ((22 # 10) / f / dt / 2) + 1) 0); [lia|].
      cbn [bind]. eauto. }
    destruct Hw as (w & Hw). exists w. split; [assumption|].
    apply rickerwave_inv in Hw as (_ & c & _ & _ & _ & Hlen & _). lia.
Qed.

(** ** Interpolated values stay between their neighbours *)


Lemma last_nth (l : list Q) : last l 0 = nth (length l - 1) l 0.
Proof.
  induction l as [|a [|b l] IH]; try reflexivity.
  change (last (a :: b :: l) 0) with (last (b :: l) 0). rewrite IH.
  simpl. now rewrite Nat.sub_0_r.
Qed.

Lemma getitem_last_inv a v : getitem a (-1) = Ok v -> a <> [] /\ v = last a 0.
Proof.
  intros H. assert (Hne : a <> []).
  { intros ->. discriminate H. }
  split; [assumption|]. rewrite getitem_last in H by assumption. congruence.
Qed.

Lemma getitem_first_inv a v : getitem a 0 = Ok v -> a <> [] /\ v = nth 0 a 0.
Proof.
  intros H. apply getitem_nonneg in H as [Hl ->]; [|lia]. split; [|reflexivity].
  intros ->. simpl in Hl. lia.
Qed.





(** ** Resampled values stay within the range of the model *)

Lemma Forall_firstn_of {A : Type} (P : A -> Prop) (l : list A) i :
  Forall P l -> Forall P (firstn i l).
Proof. intros H. apply (Forall_firstn_skipn P l i 0). exact H. Qed.

Lemma Forall_skipn_of {A : Type} (P : A -> Prop) (l : list A) j :
  Forall P l -> Forall P (skipn j l).
Proof.
  intros H. rewrite <- (firstn_skipn j l) in H. now apply Forall_app in H.
Qed.

Lemma setslice_scalar_Forall (P : Q -> Prop) a start stop v :
  Forall P a -> P v -> Forall P (setslice_scalar a start stop v).
Proof.
  intros Ha Hv. unfold setslice_scalar.
  apply Forall_app. split; [now apply Forall_firstn_of|].
  apply Forall_app. split; [now apply Forall_repeat | now apply Forall_skipn_of].
Qed.

Lemma setslice_Forall (P : Q -> Prop) a start stop vs out :
  setslice a start stop vs = Ok out -> Forall P a -> Forall P vs -> Forall P out.
Proof.
  unfold setslice. intros H Ha Hvs.
  destruct (length vs =? _)%nat.
  - injection H as <-.
    apply Forall_app. split; [now apply Forall_firstn_of|].
    apply Forall_app. split; [assumption | now apply Forall_skipn_of].
  - destruct vs as [|v [|? ?]]; try discriminate. injection H as <-.
    apply setslice_scalar_Forall; [assumption | now inversion Hvs].
Qed.



Lemma Qmult_pos_neq a b : 0 < a -> 0 < b -> ~ a + b == 0.
Proof. intros Ha Hb. apply Qpos_neq0. lra. Qed.









(** ** The three parts of a resampled trace *)

Lemma resample_trace_steps d g init twt prop col :
  resample_trace d g init twt prop = Ok col ->
  exists tck ys c1 x,
    twt <> [] /\ prop <> [] /\ ~ d == 0 /\
    interp1d twt prop = Ok tck /\
    interp_call tck
      (getslice g (Qceiling (nth 0 twt 0%Q / d)%Q)
         (Some (Qceiling (last twt 0%Q / d)%Q - 1)%Z)) = Ok ys /\
    setslice init (Qceiling (nth 0 twt 0%Q / d)%Q)
      (Some (Qceiling (last twt 0%Q / d)%Q - 1)%Z) ys = Ok c1 /\
    getitem c1 (Qceiling (last twt 0%Q / d)%Q - 1 - 1)%Z = Ok x /\
    col = setslice_scalar
            (setslice_scalar c1 (Qceiling (last twt 0%Q / d)%Q - 1)%Z None x)
            0 (Some (Qceiling (nth 0 twt 0%Q / d)%Q)) (nth 0 prop 0).
Proof.
  unfold resample_trace. intros H.
  inv_bind H. inv_bind H. inv_bind H. inv_bind H. inv_bind H. inv_bind H.
  inv_bind H. inv_bind H. inv_bind H.
  apply getitem_first_inv in E as [Hne ->].
  apply np_div_inv in E0 as [Hd ->].
  apply getitem_last_inv in E1 as [_ ->].
  apply np_div_inv in E2 as [_ ->].
  apply getitem_first_inv in E7 as [Hpne ->].
  exists r3, r4, r5, r6. repeat (split; [assumption|]). congruence.
Qed.

Lemma resample_trace_parts (d : Q) (g init twt prop col : list Q) :
  resample_trace d g init twt prop = Ok col ->
  length init = length g ->
  (1 <= Qceiling (nth 0 twt 0%Q / d)%Q)%Z ->
  (Qceiling (nth 0 twt 0%Q / d)%Q < Qceiling (last twt 0%Q / d)%Q - 1)%Z ->
  (Qceiling (last twt 0%Q / d)%Q - 1 < Z.of_nat (length g))%Z ->
  exists tck ys,
    interp1d twt prop = Ok tck /\
    interp_call tck
      (getslice g (Qceiling (nth 0 twt 0%Q / d)%Q)
         (Some (Qceiling (last twt 0%Q / d)%Q - 1)%Z)) = Ok ys /\
    length ys = (Z.to_nat (Qceiling (last twt 0%Q / d)%Q - 1)
                 - Z.to_nat (Qceiling (nth 0 twt 0%Q / d)%Q))%nat /\
    col = repeat (nth 0 prop 0) (Z.to_nat (Qceiling (nth 0 twt 0%Q / d)%Q))
          ++ ys
          ++ repeat (last ys 0)
               (length g - Z.to_nat (Qceiling (last twt 0%Q / d)%Q - 1)).
Proof.
  intros H Hinit Hkk1 Hkl HlimN.
  destruct (resample_trace_steps _ _ _ _ _ _ H)
    as (tck & ys & c1 & x & Hne & Hpne & Hd & Htck & Hys & Hc1 & Hx & ->).
  remember (Qceiling (nth 0 twt 0%Q / d)%Q) as kk eqn:Ekk.
  remember (Qceiling (last twt 0%Q / d)%Q - 1)%Z as lim eqn:Elim.
  exists tck, ys. split; [assumption|]. split; [assumption|].
  assert (Hlo : slice_bound (length init) kk = Z.to_nat kk).
  { rewrite slice_bound_nonneg by lia. lia. }
  assert (Hhi : slice_bound (length init) lim = Z.to_nat lim).
  { rewrite slice_bound_nonneg by lia. lia. }
  assert (Hylen : length ys = (Z.to_nat lim - Z.to_nat kk)%nat).
  { apply interp_call_inv, Forall2_length in Hys.
    rewrite <- Hys, getslice_length. simpl slice_stop.
    rewrite <- Hinit, Hlo, Hhi. reflexivity. }
  split; [assumption|].
  destruct (setslice_ok init kk (Some lim) ys) as [Hset Hc1len].
  { simpl slice_stop. rewrite Hlo, Hhi. exact Hylen. }
  rewrite Hset in Hc1. injection Hc1 as Hc1. simpl slice_stop in Hc1, Hc1len.
  rewrite Hlo, Hhi in Hc1, Hc1len.
  set (A := firstn (Z.to_nat kk) init) in *.
  set (B := skipn (Z.to_nat kk + (Z.to_nat lim - Z.to_nat kk)) init) in *.
  assert (HA : length A = Z.to_nat kk) by (unfold A; rewrite length_firstn; lia).
  rewrite Hc1 in Hc1len.
  apply getitem_nonneg in Hx as [_ Hx]; [|lia].
  assert (Hxl : x = last ys 0).
  { rewrite Hx, <- Hc1. rewrite app_nth2 by lia. rewrite app_nth1 by lia.
    rewrite last_nth. f_equal. lia. }
  unfold setslice_scalar at 1. rewrite setslice_scalar_length.
  simpl slice_stop. rewrite (slice_bound_nonneg _ 0) by lia.
  rewrite Hc1len, Hlo. simpl Nat.min. simpl firstn. simpl app.
  rewrite Nat.sub_0_r. simpl plus. f_equal.
  unfold setslice_scalar. simpl slice_stop. rewrite Hc1len, Hhi.
  assert (Hfirst : firstn (Z.to_nat lim) c1 = A ++ ys).
  { rewrite <- Hc1, app_assoc.
    replace (Z.to_nat lim) with (length (A ++ ys)) by (rewrite length_app; lia).
    apply firstn_app_length. }
  rewrite Hfirst, <- (app_assoc A ys).
  rewrite <- HA at 1. rewrite skipn_app_length.
  rewrite skipn_all2 by lia. rewrite app_nil_r, Hxl, Hinit. reflexivity.
Qed.

(** X7: when [1 <= kk < lim < N], a resampled trace consists of the first
    depth sample held over the [kk] first fine samples, then the [lim - kk]
    interpolated samples, then the last interpolated sample held up to the
    end of the fine grid. *)
Theorem resampled_trace_has_three_parts (d : Q) (g init twt prop col : list Q) :
  resample_trace d g init twt prop = Ok col ->
  length init = length g ->
  (1 <= Qceiling (nth 0 twt 0%Q / d)%Q)%Z ->
  (Qceiling (nth 0 twt 0%Q / d)%Q < Qceiling (last twt 0%Q / d)%Q - 1)%Z ->
  (Qceiling (last twt 0%Q / d)%Q - 1 < Z.of_nat (length g))%Z ->
  exists tck ys,
    interp1d twt prop = Ok tck /\
    interp_call tck
      (getslice g (Qceiling (nth 0 twt 0%Q / d)%Q)
         (Some (Qceiling (last twt 0%Q / d)%Q - 1)%Z)) = Ok ys /\
    length ys = (Z.to_nat (Qceiling (last twt 0%Q / d)%Q - 1)
                 - Z.to_nat (Qceiling (nth 0 twt 0%Q / d)%Q))%nat /\
    col = repeat (nth 0 prop 0) (Z.to_nat (Qceiling (nth 0 twt 0%Q / d)%Q))
          ++ ys
          ++ repeat (last ys 0)
               (length g - Z.to_nat (Qceiling (last twt 0%Q / d)%Q - 1)).
Proof.
  intros H Hinit Hkk1 Hkl HlimN.
  exact (resample_trace_parts d g init twt prop col H Hinit Hkk1 Hkl HlimN).
Qed.

Lemma resampled_trace_has_three_parts_witness :
  exists col,
    resample_trace 1 [0; 1; 2; 3; 4; 5] (repeat 1 6) [1; 2; 4] [10; 20; 40]
      = Ok col /\
    map Qred col = [10; 10; 20; 20; 20; 20] /\
    exists ys, length ys = 2%nat /\
      col = repeat 10 1 ++ ys ++ repeat (last ys 0) 3.
Proof.
  eexists. split; [vm_compute; reflexivity|]. split; [reflexivity|].
  match goal with
  | |- exists ys, _ /\ ?c = _ =>
      destruct (resampled_trace_has_three_parts 1 [0; 1; 2; 3; 4; 5]
                  (repeat 1 6) [1; 2; 4] [10; 20; 40] c)
        as (tck & ys & _ & _ & Hl & Hc)
  end.
  - vm_compute. reflexivity.
  - reflexivity.
  - vm_compute. discriminate.
  - vm_compute. reflexivity.
  - vm_compute. reflexivity.
  - exists ys. split; [exact Hl | exact Hc].
Defined.




Lemma skipn_repeat {A : Type} (x : A) k n : skipn k (repeat x n) = repeat x (n - k).
Proof.
  revert k; induction n as [|n IH]; intros [|k]; simpl; try reflexivity.
  apply IH.
Qed.

Lemma all_ones_is_repeat (l : list Q) n :
  Forall (fun x => x = 1) l -> length l = n -> l = repeat 1 n.
Proof.
  intros H <-. apply Forall_eq_repeat.
  eapply Forall_impl; [|exact H]. intros x ->. reflexivity.
Qed.

(** X9: when [0 <= lim <= kk] (the trace spans less than two cells of the
    fine grid, as for a trace of one depth sample), no sample is
    interpolated: the resampled trace holds the first depth sample up to
    index [kk] and keeps the initial fill [1.0] after it, not a value of
    the model. *)
Theorem resampled_trace_without_interior (d : Q) (g twt prop col : list Q) :
  resample_trace d g (repeat 1 (length g)) twt prop = Ok col ->
  (0 <= Qceiling (last twt 0%Q / d)%Q - 1)%Z ->
  (Qceiling (last twt 0%Q / d)%Q - 1 <= Qceiling (nth 0 twt 0%Q / d)%Q)%Z ->
  col = repeat (nth 0 prop 0)
          (Nat.min (Z.to_nat (Qceiling (nth 0 twt 0%Q / d)%Q)) (length g))
        ++ repeat 1
             (length g - Nat.min (Z.to_nat (Qceiling (nth 0 twt 0%Q / d)%Q)) (length g)).
Proof.
  intros H Hlim0 Hlk.
  destruct (resample_trace_steps _ _ _ _ _ _ H)
    as (tck & ys & c1 & x & Hne & Hpne & Hd & Htck & Hys & Hc1 & Hx & ->).
  remember (Qceiling (nth 0 twt 0%Q / d)%Q) as kk eqn:Ekk.
  remember (Qceiling (last twt 0%Q / d)%Q - 1)%Z as lim eqn:Elim.
  set (N := length g) in *.
  assert (Hones : Forall (fun x => x = 1) (repeat 1 N)) by now apply Forall_repeat.
  assert (Hys0 : ys = []).
  { apply interp_call_inv, Forall2_length in Hys.
    rewrite getslice_length in Hys. simpl slice_stop in Hys.
    rewrite !slice_bound_nonneg in Hys by lia.
    destruct ys; [reflexivity | simpl in Hys; lia]. }
  subst ys.
  assert (Hc1ones : Forall (fun x => x = 1) c1)
    by (eapply setslice_Forall; [exact Hc1 | exact Hones | constructor]).
  assert (Hc1len : length c1 = N).
  { apply setslice_length in Hc1. now rewrite repeat_length in Hc1. }
  assert (Hx1 : x = 1).
  { apply getitem_In in Hx. rewrite Forall_forall in Hc1ones. auto. }
  assert (Hc2 : setslice_scalar c1 lim None x = repeat 1 N).
  { apply all_ones_is_repeat.
    - apply setslice_scalar_Forall; assumption.
    - now rewrite setslice_scalar_length. }
  rewrite Hc2. unfold setslice_scalar. rewrite repeat_length.
  simpl slice_stop. rewrite (slice_bound_nonneg _ 0) by lia.
  rewrite (slice_bound_nonneg _ kk) by lia.
  simpl Nat.min. simpl firstn. simpl app. rewrite Nat.sub_0_r. simpl plus.
  now rewrite skipn_repeat.
Qed.

Lemma resampled_trace_without_interior_witness :
  exists col,
    resample_trace 1 [0; 1; 2; 3; 4] (repeat 1 (length [0; 1; 2; 3; 4])) [2] [7]
      = Ok col /\
    col = [7; 7; 1; 1; 1].
Proof.
  eexists. split; [vm_compute; reflexivity|].
  apply (resampled_trace_without_interior 1 [0; 1; 2; 3; 4] [2] [7]).
  - vm_compute. reflexivity.
  - vm_compute. discriminate.
  - vm_compute. discriminate.
Defined.

(** ** Models of uniform velocity *)





(** ** Empty models *)


(** ** The span of the time axis *)




(** ** A wavelet of one sample *)









